(** * asu/main.py: index aggregation endpoints of the ASU server

    A shallow embedding of the request handlers of [asu/main.py]:
    [json_v1_target_index], [json_v1_arch_index], the branch directory
    computed by [index], and the redirect routes.

    Python dictionaries with string keys are finite maps ([gmap string _]);
    JSON-like manifest values are a tagged union; exceptions and the calls
    made to the upstream parsers are threaded through a small monad. *)

From Stdlib Require Import Ascii.
From stdpp Require Import gmap strings list fin_maps sorting.

Open Scope string_scope.
Open Scope list_scope.

(** ** Values and exceptions *)

(** The values a manifest document can carry: strings, numbers and nested
    string-keyed mappings. *)
#[local] Unset Elimination Schemes.
Inductive value :=
  | VStr (s : string)
  | VNum (n : Z)
  | VDict (d : gmap string value).
#[local] Set Elimination Schemes.

Abbreviation dict := (gmap string value).

(** The exceptions the handlers can end with.  [UpstreamFetchError] is what
    the parsers of [asu.util] raise; the others are raised by Python's own
    dictionary operations. *)
Inductive exn :=
  | UpstreamFetchError
  | KeyError (key : string)
  | AttributeError
  | TypeError
  | ValueError.

(** ** Python dictionary operations *)

(** [d[key]]: raises [KeyError] when the key is missing. *)
Definition getitem (d : dict) (key : string) : exn + value :=
  match d !! key with
  | Some v => inr v
  | None => inl (KeyError key)
  end.

(** [d.get(key, dflt)] *)
Definition get (d : dict) (key : string) (dflt : value) : value :=
  default dflt (d !! key).

(** [self.update(other)] on a mapping [self].  Every key of [other] is
    (re)bound in [self], so [other] wins on a collision.  A non-mapping
    argument is iterated as a sequence of pairs: the empty string has no
    elements, a non-empty string yields one-character elements
    ([ValueError]), a number is not iterable ([TypeError]). *)
Definition dict_update (self : dict) (other : value) : exn + dict :=
  match other with
  | VDict o => inr (o ∪ self)
  | VStr "" => inr self
  | VStr _ => inl ValueError
  | VNum _ => inl TypeError
  end.

(** [self.update(other)] on an arbitrary value: only a mapping has the
    method ([AttributeError] otherwise). *)
Definition update (self other : value) : exn + value :=
  match self with
  | VDict d =>
      match dict_update d other with
      | inr d' => inr (VDict d')
      | inl e => inl e
      end
  | _ => inl AttributeError
  end.

(** ** Calls to the upstream parsers *)

(** One entry per call made to a parser of [asu.util] that reads from the
    upstream server, with the URL it was called on. *)
Inductive call :=
  | ParsePackagesFile (url : string)
  | ParseFeedsConf (url : string)
  | ParseKernelVersion (url : string).

(** A handler computation: it extends the log of upstream calls and ends
    with a value or with an exception. *)
Definition M (A : Type) : Type := list call → (exn + A) * list call.

#[global] Instance M_ret : MRet M := λ A (x : A) log, (inr x, log).

#[global] Instance M_bind : MBind M := λ A B (f : A → M B) (m : M A) log,
  match m log with
  | (inr x, log') => f x log'
  | (inl e, log') => (inl e, log')
  end.

(** An operation that may raise but reads nothing from upstream. *)
Definition lift {A} (r : exn + A) : M A := λ log, (r, log).

(** Outcome and upstream calls of a handler run from an empty log. *)
Definition result {A} (m : M A) : exn + A := (m []).1.
Definition calls {A} (m : M A) : list call := (m []).2.

(** Python truthiness of the value returned by [parse_kernel_version]:
    [None] and the empty string are false. *)
Definition truthy (s : option string) : bool :=
  match s with
  | Some "" | None => false
  | Some _ => true
  end.

Section Handlers.

(** [settings.upstream_url] *)
Variable upstream_url : string.

(** The collaborators imported from [asu.util].  The three that fetch from
    upstream are given by what they answer for a URL. *)
Variable is_post_kmod_split_build : string → bool.
Variable packages_at : string → exn + dict.
Variable feeds_at : string → exn + list string.
Variable kernel_version_at : string → exn + option string.

Definition parse_packages_file (url : string) : M dict :=
  λ log, (packages_at url, (log ++ [ParsePackagesFile url])%list).

Definition parse_feeds_conf (url : string) : M (list string) :=
  λ log, (feeds_at url, (log ++ [ParseFeedsConf url])%list).

Definition parse_kernel_version (url : string) : M (option string) :=
  λ log, (kernel_version_at url, (log ++ [ParseKernelVersion url])%list).

(** *** [json_v1_target_index] *)

(** [base_packages["packages"].update(kmod_packages.get("packages", {}))]:
    the nested mapping is updated in place, so afterwards [base_packages]
    holds the updated mapping under ["packages"]. *)
Definition merge_kmod_packages (base_packages kmod_packages : dict)
    : exn + dict :=
  match getitem base_packages "packages" with
  | inl e => inl e
  | inr self =>
      match update self (get kmod_packages "packages" (VDict ∅)) with
      | inl e => inl e
      | inr self' => inr (<["packages" := self']> base_packages)
      end
  end.

Definition json_v1_target_index (path : string) : M dict :=
  let base_path := upstream_url +:+ "/" +:+ path in
  base_packages ← parse_packages_file (base_path +:+ "/packages");
  if is_post_kmod_split_build path then
    kmods_directory ← parse_kernel_version (base_path +:+ "/profiles.json");
    if truthy kmods_directory then
      kmod_packages ← parse_packages_file
        (base_path +:+ "/kmods/" +:+ default "" kmods_directory);
      lift (merge_kmod_packages base_packages kmod_packages)
    else mret base_packages
  else mret base_packages.

(** *** [json_v1_arch_index] *)

(** The body of [for feed in feeds], with the accumulator [packages]. *)
Fixpoint arch_index_loop (feed_url : string) (feeds : list string)
    (packages : dict) : M dict :=
  match feeds with
  | [] => mret packages
  | feed :: feeds' =>
      manifest ← parse_packages_file (feed_url +:+ "/" +:+ feed);
      packages' ← lift (dict_update packages
                                    (get manifest "packages" (VDict ∅)));
      arch_index_loop feed_url feeds' packages'
  end.

Definition json_v1_arch_index (path arch : string) : M dict :=
  let feed_url := upstream_url +:+ "/" +:+ path +:+ "/" +:+ arch in
  feeds ← parse_feeds_conf feed_url;
  arch_index_loop feed_url feeds ∅.

End Handlers.

(** ** The branch directory of [index] *)

(** [sorted(xs)] on strings: ascending in the lexicographic order of the
    code units.  Python's sort is stable; on a total order the output is
    determined by the elements, so a merge sort stands for it. *)
Definition sorted (xs : list string) : list string :=
  merge_sort String.le xs.

(** [self[key] = v] on an insertion-ordered dictionary: an existing key keeps
    its position, a new key goes to the end. *)
Fixpoint setitem {V} (key : string) (v : V) (d : list (string * V))
    : list (string * V) :=
  match d with
  | [] => [(key, v)]
  | (k, w) :: d' =>
      if decide (key = k) then (key, v) :: d' else (k, w) :: setitem key v d'
  end.

(** [dict(pairs)] *)
Definition dict_of_pairs {V} (pairs : list (string * V))
    : list (string * V) :=
  foldl (λ d kv, setitem kv.1 kv.2 d) [] pairs.

(** The value [{"versions": ...}] bound to each branch. *)
Record branch_info := BranchInfo { versions : list string }.

Section Directory.

(** The state of the shared store: [redis_client.smembers(key)]. *)
Variable smembers : string → gset string.

(** The order in which a set hands out its members when iterated. *)
Variable iteration : gset string → list string.

(** The [branches] mapping built by [index], keys in insertion order. *)
Definition index_branches : list (string * branch_info) :=
  dict_of_pairs
    (map (λ b, (b, {| versions :=
                        sorted (iteration (smembers ("versions:" +:+ b))) |}))
         (sorted (iteration (smembers "branches")))).

End Directory.

(** ** Routes *)

(** [strip_prefix p s] is the rest of [s] after the literal prefix [p]. *)
Fixpoint strip_prefix (p s : string) : option string :=
  match p, s with
  | "", _ => Some s
  | String a p', String b s' =>
      if decide (a = b) then strip_prefix p' s' else None
  | String _ _, "" => None
  end.

Definition strip_suffix (p s : string) : option string :=
  String.rev <$> strip_prefix (String.rev p) (String.rev s).

(** Split at the first ["/"]. *)
Fixpoint split_slash (s : string) : option (string * string) :=
  match s with
  | "" => None
  | String a s' =>
      if decide (a = "/"%char) then Some ("", s')
      else (λ xy, (String a xy.1, xy.2)) <$> split_slash s'
  end.

(** Split at the last ["/"]. *)
Definition rsplit_slash (s : string) : option (string * string) :=
  (λ xy, (String.rev xy.2, String.rev xy.1)) <$> split_slash (String.rev s).

(** The line feed. *)
Definition line_feed : ascii := "010"%char.

Fixpoint has_line_feed (s : string) : bool :=
  match s with
  | "" => false
  | String a s' => bool_decide (a = line_feed) || has_line_feed s'
  end.

(** [s.endswith("/")] and [s.rstrip("/")] *)
Definition ends_with_slash (s : string) : bool :=
  match String.rev s with
  | String a _ => bool_decide (a = "/"%char)
  | "" => false
  end.

Fixpoint lstrip_slashes (s : string) : string :=
  match s with
  | String a s' => if decide (a = "/"%char) then lstrip_slashes s' else s
  | "" => ""
  end.

Definition rstrip_slashes (s : string) : string :=
  String.rev (lstrip_slashes (String.rev s)).

(** The endpoint a GET request is routed to, with its path parameters.  The
    first four are the routes [FastAPI(...)] registers for itself when the
    application is created; [ApiRouter] stands for the routes of
    [api.router]. *)
Inductive endpoint :=
  | OpenapiJson
  | SwaggerUi
  | SwaggerUiRedirect
  | Redoc
  | ApiRouter (rest : string)
  | StoreFiles (path : string)
  | StaticFiles (path : string)
  | Index
  | JsonV1TargetIndex (path : string)
  | JsonV1ArchIndex (path arch : string)
  | JsonFiles (path : string)
  | ApiDoubleSlash (path : string)
  | ApiOverview.

(** [RedirectResponse(url, status_code)] with the arguments it is built
    from; [SlashRedirect path] is the router's own answer when only the path
    with its trailing slash toggled matches a route: a 307 redirect to the
    URL of the request with its path replaced by [path]. *)
Inductive response :=
  | RedirectResponse (url : string) (status_code : Z)
  | SlashRedirect (url_path : string)
  | EndpointResponse (e : endpoint)
  | NotFound.

(** Route patterns.  The router compiles a route's path to a regular
    expression between [^] and [$], a [{name:path}] parameter becoming a
    group for any run of [.], and matches it against the request path.  [$] matches at the end
    of the path or before a line feed that ends it, and neither the literal
    parts of these routes nor [.] match a line feed: what the expression
    spans is the path, less one final line feed, when no line feed is left
    in it. *)
Definition regex_span (url_path : string) : option string :=
  let s := default url_path (strip_suffix (String line_feed "") url_path) in
  if has_line_feed s then None else Some s.

(** A route without parameters. *)
Definition match_exact (path url_path : string) : bool :=
  bool_decide (regex_span url_path = Some path).

(** A mount at [prefix] takes every path under [prefix/]. *)
Definition match_mount (prefix url_path : string) : option string :=
  s ← regex_span url_path;
  strip_prefix (prefix +:+ "/") s.

(** A [{name:path}] parameter matches any string without a line feed,
    slashes included; with two parameters the first one is greedy. *)
Definition match_target_index (url_path : string) : option string :=
  s ← regex_span url_path;
  rest ← strip_prefix "/json/v1/" s;
  strip_suffix "/index.json" rest.

Definition match_arch_index (url_path : string) : option (string * string) :=
  s ← regex_span url_path;
  rest ← strip_prefix "/json/v1/" s;
  mid ← strip_suffix "-index.json" rest;
  rsplit_slash mid.

Definition match_double_slash (url_path : string) : option string :=
  s ← regex_span url_path;
  strip_prefix "//" s.

Section Routes.

(** Whether a route of [api.router], for whatever method, matches what
    follows the prefix ["/api/v1"].  No other route matches a path with this
    prefix, so such a request is answered by the route of [api.router] that
    matches it. *)
Variable api_routes : string → bool.

(** The routes in the order in which they are registered: those of
    [FastAPI(...)], then those of [main.py]; the first that matches takes the
    GET request. *)
Definition dispatch (url_path : string) : option endpoint :=
  (if match_exact "/openapi.json" url_path then Some OpenapiJson else None)
  ∪ (if match_exact "/docs" url_path then Some SwaggerUi else None)
  ∪ (if match_exact "/docs/oauth2-redirect" url_path
     then Some SwaggerUiRedirect else None)
  ∪ (if match_exact "/redoc" url_path then Some Redoc else None)
  ∪ match strip_prefix "/api/v1" url_path with
    | Some rest => if api_routes rest then Some (ApiRouter rest) else None
    | None => None
    end
  ∪ (StoreFiles <$> match_mount "/store" url_path)
  ∪ (StaticFiles <$> match_mount "/static" url_path)
  ∪ (if match_exact "/" url_path then Some Index else None)
  ∪ (JsonV1TargetIndex <$> match_target_index url_path)
  ∪ ((λ pa, JsonV1ArchIndex pa.1 pa.2) <$> match_arch_index url_path)
  ∪ (JsonFiles <$> match_mount "/json" url_path)
  ∪ (ApiDoubleSlash <$> match_double_slash url_path)
  ∪ (if match_exact "/overview" url_path then Some ApiOverview else None).

Definition api_double_slash (path : string) : response :=
  RedirectResponse ("/" +:+ path) 301.

Definition api_overview : response :=
  RedirectResponse "/json/v1/overview.json" 301.

(** The path the router tries when no route matches: without its trailing
    slashes, or with one added. *)
Definition toggle_slash (url_path : string) : string :=
  if ends_with_slash url_path then rstrip_slashes url_path
  else url_path +:+ "/".

(** The answer to a GET request.  When no route matches and the path is not
    ["/"], the router redirects to the path with its trailing slash toggled
    if that one matches a route; otherwise the answer is 404. *)
Definition serve (url_path : string) : response :=
  match dispatch url_path with
  | Some (ApiDoubleSlash path) => api_double_slash path
  | Some ApiOverview => api_overview
  | Some e => EndpointResponse e
  | None =>
      if decide (url_path = "/") then NotFound
      else match dispatch (toggle_slash url_path) with
           | Some _ => SlashRedirect (toggle_slash url_path)
           | None => NotFound
           end
  end.

End Routes.

(** Whether a path contains two consecutive separators. *)
Fixpoint has_double_slash (s : string) : bool :=
  match s with
  | "" => false
  | String a s' =>
      match s' with
      | String b _ =>
          (bool_decide (a = "/"%char) && bool_decide (b = "/"%char))
          || has_double_slash s'
      | "" => false
      end
  end.

(** ** Concrete upstream states *)

Module Scenario.

Definition upstream_url : string := "https://downloads.openwrt.org".
Definition target : string := "releases/24.10.0/targets/x86/64".
Definition kmods_directory : string := "6.6.73-1-a21259e4f338051d27a6443a3a7f7f1f".

(** A target with a kmod split. *)
Definition base_manifest : dict :=
  {[ "packages" := VDict {[ "a" := VStr "1.0" ]}; "arch" := VStr "x86" ]}.
Definition kmod_manifest : dict :=
  {[ "packages" := VDict {[ "b" := VStr "2.0" ]} ]}.

Definition packages_at (base kmod : dict) (url : string) : exn + dict :=
  if decide (url = upstream_url +:+ "/" +:+ target +:+ "/packages")
  then inr base
  else if decide (url = upstream_url +:+ "/" +:+ target +:+ "/kmods/"
                          +:+ kmods_directory)
  then inr kmod
  else inl UpstreamFetchError.

Definition kernel_version_at (url : string) : exn + option string :=
  inr (Some kmods_directory).

(** A base manifest without [packages], and a kmod manifest without it. *)
Definition bare_manifest : dict := {[ "arch" := VStr "x86" ]}.

(** Three feeds that all define the package [foo]. *)
Definition arch : string := "x86_64".
Definition feeds : list string := ["base"; "packages"; "luci"].
Definition foo (v : string) : dict :=
  {[ "packages" := VDict {[ "foo" := VStr v ]} ]}.

Definition feed_packages_at (luci : exn + dict) (url : string)
    : exn + dict :=
  let feed_url := upstream_url +:+ "/" +:+ target +:+ "/" +:+ arch in
  if decide (url = feed_url +:+ "/base") then inr (foo "1")
  else if decide (url = feed_url +:+ "/packages") then inr (foo "2")
  else if decide (url = feed_url +:+ "/luci") then luci
  else inl UpstreamFetchError.

(** A store with two branches. *)
Definition smembers (key : string) : gset string :=
  if decide (key = "branches") then {[ "SNAPSHOT"; "24.10"; "23.05" ]}
  else if decide (key = "versions:24.10") then {[ "24.10.1"; "24.10.0" ]}
  else if decide (key = "versions:23.05") then {[ "23.05.5"; "23.05.4" ]}
  else ∅.

End Scenario.

(** Further upstream states: the merged document of the kmod scenario, two
    feeds that share no package, and a manifest with a malformed field. *)
Module Fixtures.

Definition merged_manifest : dict :=
  {[ "packages" := VDict {[ "a" := VStr "1.0"; "b" := VStr "2.0" ]};
     "arch" := VStr "x86" ]}.

Definition doc (feed : string) : dict :=
  if decide (feed = "base")
  then {[ "packages" := VDict {[ "a" := VStr "1" ]} ]}
  else {[ "packages" := VDict {[ "b" := VStr "2" ]} ]}.

Definition packages_at (url : string) : exn + dict :=
  let feed_url := Scenario.upstream_url +:+ "/" +:+ Scenario.target
                  +:+ "/" +:+ Scenario.arch in
  if decide (url = feed_url +:+ "/base") then inr (doc "base")
  else if decide (url = feed_url +:+ "/luci") then inr (doc "luci")
  else inl UpstreamFetchError.

Definition numbered : dict := {[ "packages" := VNum 7 ]}.


(** The feed [base] answers with a malformed manifest; every other fetch
    fails. *)
Definition numbered_packages_at (url : string) : exn + dict :=
  let feed_url := Scenario.upstream_url +:+ "/" +:+ Scenario.target
                  +:+ "/" +:+ Scenario.arch in
  if decide (url = feed_url +:+ "/base") then inr numbered
  else inl UpstreamFetchError.

End Fixtures.

(** ** The target index *)

(** The typing of a manifest document: when it has a [packages] field, the
    field is a mapping. *)
Definition packages_typed (d : dict) : Prop :=
  match d !! "packages" with
  | Some (VDict _) | None => True
  | Some _ => False
  end.

(** The packages a fetched feed manifest contributes. *)
Definition contribution (manifest : dict) : dict :=
  match manifest !! "packages" with
  | Some (VDict p) => p
  | _ => ∅
  end.

Ltac run_handler :=
  unfold result, calls, json_v1_target_index, json_v1_arch_index,
    parse_packages_file, parse_kernel_version, parse_feeds_conf,
    mbind, M_bind, mret, M_ret, lift; simpl.

Section TargetIndex.

Context (upstream_url : string) (is_post_kmod_split_build : string → bool)
  (packages_at : string → exn + dict)
  (kernel_version_at : string → exn + option string).

Local Abbreviation target_index :=
  (json_v1_target_index upstream_url is_post_kmod_split_build
     packages_at kernel_version_at).
Local Abbreviation base_path path := (upstream_url +:+ "/" +:+ path).

Lemma merge_kmod_packages_dicts (base kmod : dict) (bp kp : dict) :
  base !! "packages" = Some (VDict bp) →
  get kmod "packages" (VDict ∅) = VDict kp →
  merge_kmod_packages base kmod = inr (<["packages" := VDict (kp ∪ bp)]> base).
Proof.
  intros Hb Hk. unfold merge_kmod_packages, getitem.
  rewrite Hb, Hk. reflexivity.
Qed.

Lemma merge_kmod_packages_empty (base kmod bp : dict) :
  base !! "packages" = Some (VDict bp) →
  get kmod "packages" (VDict ∅) = VDict ∅ →
  merge_kmod_packages base kmod = inr base.
Proof.
  intros Hb Hk. rewrite (merge_kmod_packages_dicts base kmod bp ∅ Hb Hk).
  rewrite (left_id_L ∅ (∪)). by rewrite insert_id.
Qed.

(** The handler on the merge path: both manifests were fetched. *)
Lemma target_index_merge_path path base kmod kd :
  is_post_kmod_split_build path = true →
  packages_at (base_path path +:+ "/packages") = inr base →
  kernel_version_at (base_path path +:+ "/profiles.json") = inr kd →
  truthy kd = true →
  packages_at (base_path path +:+ "/kmods/" +:+ default "" kd) = inr kmod →
  result (target_index path) = merge_kmod_packages base kmod.
Proof.
  intros Hsplit Hbase Hkv Hkd Hkmod. run_handler.
  rewrite Hbase, Hsplit. simpl. rewrite Hkv, Hkd. simpl.
  rewrite Hkmod. reflexivity.
Qed.

(** C1: on a kmod split with a resolved kmod directory, the handler
    returns the base document with the kmod packages written over the
    base packages (the kmod value wins on a collision); every other field
    of the base document is returned as it was fetched. *)
Theorem target_index_kmod_merge path base kmod kd (bp kp : dict) :
  is_post_kmod_split_build path = true →
  packages_at (base_path path +:+ "/packages") = inr base →
  kernel_version_at (base_path path +:+ "/profiles.json") = inr (Some kd) →
  kd ≠ "" →
  packages_at (base_path path +:+ "/kmods/" +:+ kd) = inr kmod →
  base !! "packages" = Some (VDict bp) →
  kmod !! "packages" = Some (VDict kp) →
  ∃ (r m : dict),
    result (target_index path) = inr r ∧
    r !! "packages" = Some (VDict m) ∧
    (∀ name v, kp !! name = Some v → m !! name = Some v) ∧
    (∀ name, kp !! name = None → m !! name = bp !! name) ∧
    (∀ field, field ≠ "packages" → r !! field = base !! field).
Proof.
  intros Hsplit Hbase Hkv Hkd Hkmod Hbp Hkp.
  exists (<["packages" := VDict (kp ∪ bp)]> base), (kp ∪ bp).
  split; [|split; [|split; [|split]]].
  - rewrite (target_index_merge_path path base kmod (Some kd)); try done.
    + apply merge_kmod_packages_dicts; [done|]. unfold get. by rewrite Hkp.
    + by destruct kd.
  - apply lookup_insert_eq.
  - intros name v Hv. by apply lookup_union_Some_l.
  - intros name Hnone. by apply lookup_union_r.
  - intros field Hne. by apply lookup_insert_ne.
Qed.

(** C3: without a kmod split, and on a split whose kmod directory does not
    resolve, the handler returns the base manifest as it was fetched. *)
Theorem target_index_passthrough path base :
  packages_at (base_path path +:+ "/packages") = inr base →
  is_post_kmod_split_build path = false ∨
    (∃ kd, kernel_version_at (base_path path +:+ "/profiles.json") = inr kd
           ∧ truthy kd = false) →
  result (target_index path) = inr base.
Proof.
  intros Hbase Hcase. run_handler. rewrite Hbase.
  destruct (is_post_kmod_split_build path) eqn:Hsplit; [|done].
  destruct Hcase as [|(kd & Hkv & Hkd)]; [done|].
  simpl. by rewrite Hkv, Hkd.
Qed.

(** C6, for a base manifest that has a [packages] mapping: a kmod manifest
    whose [packages] is empty or absent is a right identity of the merge, the
    base manifest comes back unchanged. *)
Theorem merge_empty_kmod_identity (base kmod bp : dict) :
  base !! "packages" = Some (VDict bp) →
  kmod !! "packages" = None ∨ kmod !! "packages" = Some (VDict ∅) →
  merge_kmod_packages base kmod = inr base.
Proof.
  intros Hb Hk. apply (merge_kmod_packages_empty base kmod bp Hb).
  unfold get. by destruct Hk as [-> | ->].
Qed.


End TargetIndex.

(** C6, as stated for every base manifest, fails: merging an empty kmod
    manifest into a base manifest without [packages] raises [KeyError]. *)
Lemma merge_empty_kmod_without_base_packages :
  Scenario.bare_manifest !! "packages" = None ∧
  merge_kmod_packages Scenario.bare_manifest ∅
  = inl (KeyError "packages") ∧
  merge_kmod_packages Scenario.bare_manifest {[ "packages" := VDict ∅ ]}
  = inl (KeyError "packages").
Proof. repeat split; vm_compute; reflexivity. Qed.


(** ** The architecture index *)

Section ArchIndex.

Context (upstream_url : string) (packages_at : string → exn + dict)
  (feeds_at : string → exn + list string).

Local Abbreviation arch_index :=
  (json_v1_arch_index upstream_url packages_at feeds_at).
Local Abbreviation loop := (arch_index_loop packages_at).
Local Abbreviation feed_url path arch :=
  (upstream_url +:+ "/" +:+ path +:+ "/" +:+ arch).

Lemma dict_update_typed (acc manifest : dict) :
  packages_typed manifest →
  dict_update acc (get manifest "packages" (VDict ∅))
  = inr (contribution manifest ∪ acc).
Proof.
  unfold packages_typed, get, contribution.
  by destruct (manifest !! "packages") as [[| |p]|].
Qed.

(** The loop over feeds that all answer with a typed manifest. *)
Lemma arch_index_loop_ok url feeds manifests acc log :
  Forall2 (λ feed m, packages_at (url +:+ "/" +:+ feed) = inr m
                     ∧ packages_typed m) feeds manifests →
  loop url feeds acc log
  = (inr (foldl (λ a m, contribution m ∪ a) acc manifests),
     (log ++ map (λ feed, ParsePackagesFile (url +:+ "/" +:+ feed)) feeds)%list).
Proof.
  intros H. revert acc log.
  induction H as [|feed m feeds manifests [Hm Tm] _ IH]; intros acc log.
  - simpl. by rewrite app_nil_r.
  - simpl. unfold mbind, M_bind, parse_packages_file, lift.
    rewrite Hm, (dict_update_typed acc m Tm), IH.
    by rewrite <- app_assoc.
Qed.

Lemma foldl_contribution_absent name (manifests : list dict) (acc : dict) :
  (∀ m, m ∈ manifests → contribution m !! name = None) →
  foldl (λ a m, contribution m ∪ a) acc manifests !! name = acc !! name.
Proof.
  revert acc. induction manifests as [|m ms IH]; intros acc H; [done|].
  simpl. rewrite IH.
  - apply lookup_union_r, H. by left.
  - intros m' Hm'. apply H. by right.
Qed.

Lemma foldl_contribution_last name v i m (manifests : list dict) (acc : dict) :
  manifests !! i = Some m →
  contribution m !! name = Some v →
  (∀ j m', i < j → manifests !! j = Some m' →
           contribution m' !! name = None) →
  foldl (λ a m, contribution m ∪ a) acc manifests !! name = Some v.
Proof.
  revert i acc. induction manifests as [|m0 ms IH]; intros i acc Hi Hv Hlater.
  { by rewrite lookup_nil in Hi. }
  destruct i as [|i]; simpl in *.
  - injection Hi as ->. rewrite foldl_contribution_absent.
    + by apply lookup_union_Some_l.
    + intros m' Hm'. apply list_elem_of_lookup in Hm' as [j Hj].
      apply (Hlater (S j)); [lia|done].
  - apply (IH i); [done..|].
    intros j m' Hlt Hj. apply (Hlater (S j)); [lia|done].
Qed.

(** A feed that fails makes the loop end with an exception. *)
Lemma arch_index_loop_fails url feeds feed e acc log :
  feed ∈ feeds →
  packages_at (url +:+ "/" +:+ feed) = inl e →
  ∃ e' log', loop url feeds acc log = (inl e', log').
Proof.
  intros Hin Hfail. revert acc log.
  induction feeds as [|f fs IH]; intros acc log.
  { by apply elem_of_nil in Hin. }
  simpl. unfold mbind, M_bind, parse_packages_file, lift.
  destruct (packages_at (url +:+ "/" +:+ f)) as [e0|m] eqn:Hf; [by eauto|].
  destruct (dict_update acc (get m "packages" (VDict ∅))) as [e1|acc'];
    [by eauto|].
  apply elem_of_cons in Hin as [->|Hin]; [congruence|]. by apply IH.
Qed.

(** A feed that fails with [UpstreamFetchError] ends the loop with that
    error when no feed listed before it raises anything else. *)
Lemma arch_index_loop_upstream_error url pre feed post acc log :
  packages_at (url +:+ "/" +:+ feed) = inl UpstreamFetchError →
  (∀ g, g ∈ pre →
     match packages_at (url +:+ "/" +:+ g) with
     | inl e => e = UpstreamFetchError
     | inr m => packages_typed m
     end) →
  ∃ log', loop url (pre ++ feed :: post) acc log
          = (inl UpstreamFetchError, log').
Proof.
  intros Hfail. revert acc log.
  induction pre as [|f fs IH]; intros acc log Hall; simpl;
    unfold mbind, M_bind, parse_packages_file, lift.
  { rewrite Hfail. eauto. }
  pose proof (Hall f ltac:(by left)) as Hf.
  destruct (packages_at (url +:+ "/" +:+ f)) as [e0|m] eqn:Ef.
  { subst e0. eauto. }
  rewrite (dict_update_typed acc m Hf).
  apply IH. intros g Hg. apply Hall. by right.
Qed.

(** C2: the feeds are merged in the order of the feed list.  A package
    bound by several feeds ends with the value of the last feed that binds
    it; a feed without a [packages] field binds nothing, so a package is
    bound in the result only if some feed's [packages] binds it. *)
Theorem arch_index_last_feed_wins path arch feeds (manifests : list dict) :
  feeds_at (feed_url path arch) = inr feeds →
  Forall2 (λ feed m,
             packages_at (feed_url path arch +:+ "/" +:+ feed) = inr m
             ∧ packages_typed m) feeds manifests →
  ∃ merged : dict,
    result (arch_index path arch) = inr merged ∧
    (∀ name v i (m p : dict),
       manifests !! i = Some m →
       m !! "packages" = Some (VDict p) → p !! name = Some v →
       (∀ j (m' p' : dict), i < j → manifests !! j = Some m' →
          m' !! "packages" = Some (VDict p') → p' !! name = None) →
       merged !! name = Some v) ∧
    (∀ name,
       (∀ m p : dict, m ∈ manifests →
          m !! "packages" = Some (VDict p) → p !! name = None) →
       merged !! name = None).
Proof.
  intros Hfeeds Hall.
  exists (foldl (λ a m, contribution m ∪ a) ∅ manifests).
  assert (Hcontr : ∀ (m : dict) name,
    (∀ p : dict, m !! "packages" = Some (VDict p) → p !! name = None) →
    contribution m !! name = None).
  { intros m name H. unfold contribution.
    destruct (m !! "packages") as [[| |p]|]; auto. }
  split; [|split].
  - run_handler. rewrite Hfeeds.
    by rewrite (arch_index_loop_ok _ feeds manifests).
  - intros name v i m p Hi Hp Hv Hlater.
    apply (foldl_contribution_last name v i m); [done| |].
    + unfold contribution. by rewrite Hp.
    + intros j m' Hlt Hj. apply Hcontr. intros p'. by apply (Hlater j).
  - intros name Hnone. rewrite foldl_contribution_absent; [done|].
    intros m Hm. apply Hcontr. intros p. by apply Hnone.
Qed.

(** C4, as the code has it: when the fetch of a listed feed fails with
    [UpstreamFetchError], the handler ends with an exception and never with
    a manifest; the exception is [UpstreamFetchError] when every feed listed
    before the failing one fails in the same way or answers with a manifest
    whose [packages] is absent or a mapping. *)
Theorem arch_index_all_or_nothing path arch pre feed post :
  feeds_at (feed_url path arch) = inr (pre ++ feed :: post) →
  packages_at (feed_url path arch +:+ "/" +:+ feed) = inl UpstreamFetchError →
  (∃ e, result (arch_index path arch) = inl e) ∧
  ((∀ g, g ∈ pre →
      match packages_at (feed_url path arch +:+ "/" +:+ g) with
      | inl e => e = UpstreamFetchError
      | inr m => packages_typed m
      end) →
   result (arch_index path arch) = inl UpstreamFetchError).
Proof.
  intros Hfeeds Hfail. split.
  - destruct (arch_index_loop_fails (feed_url path arch)
                (pre ++ feed :: post) feed _ ∅
                [ParseFeedsConf (feed_url path arch)]
                ltac:(apply elem_of_app; right; by left) Hfail)
      as (e & log' & Hloop).
    exists e. run_handler. rewrite Hfeeds. by rewrite Hloop.
  - intros Hall.
    destruct (arch_index_loop_upstream_error (feed_url path arch) pre feed
                post ∅ [ParseFeedsConf (feed_url path arch)] Hfail Hall)
      as (log' & Hloop).
    run_handler. rewrite Hfeeds. by rewrite Hloop.
Qed.

(** C10: on an empty feed list the handler returns the empty manifest, and
    its only upstream call is the one that read the feed list. *)
Theorem arch_index_no_feeds path arch :
  feeds_at (feed_url path arch) = inr [] →
  result (arch_index path arch) = inr ∅ ∧
  calls (arch_index path arch) = [ParseFeedsConf (feed_url path arch)] ∧
  (∀ url, ParsePackagesFile url ∉ calls (arch_index path arch)).
Proof.
  intros Hfeeds.
  assert (Hrun : arch_index path arch []
                 = (inr ∅, [ParseFeedsConf (feed_url path arch)])).
  { run_handler. by rewrite Hfeeds. }
  unfold result, calls. rewrite Hrun. simpl.
  split; [done|split; [done|]].
  intros url Hin. apply list_elem_of_singleton in Hin. discriminate.
Qed.

End ArchIndex.

(** C4, as stated, fails: with a feed whose [packages] is a number listed
    before the feed whose fetch fails, the handler ends with [TypeError],
    not with the [UpstreamFetchError] of the failing fetch. *)
Lemma arch_index_type_error_before_fetch_error :
  Fixtures.numbered_packages_at
    (Scenario.upstream_url +:+ "/" +:+ Scenario.target +:+ "/"
     +:+ Scenario.arch +:+ "/luci")
  = inl UpstreamFetchError ∧
  result (json_v1_arch_index Scenario.upstream_url
            Fixtures.numbered_packages_at (λ _, inr ["base"; "luci"])
            Scenario.target Scenario.arch)
  = inl TypeError.
Proof. split; vm_compute; reflexivity. Qed.

(** ** The branch directory *)

Section DirectoryFacts.

Lemma Sorted_sorted xs : Sorted String.le (sorted xs).
Proof. apply (Sorted_merge_sort String.le). Qed.

Lemma sorted_Permutation xs : sorted xs ≡ₚ xs.
Proof. apply (merge_sort_Permutation String.le). Qed.

(** The output of [sorted] depends on the elements only. *)
Lemma sorted_order_irrelevant xs ys : xs ≡ₚ ys → sorted xs = sorted ys.
Proof.
  intros Hperm. apply (Sorted_unique String.le); [apply Sorted_sorted..|].
  by rewrite !sorted_Permutation.
Qed.

Lemma setitem_fresh {V} key (v : V) (d : list (string * V)) :
  key ∉ d.*1 → setitem key v d = d ++ [(key, v)].
Proof.
  induction d as [|[k w] d IH]; intros Hfresh; [done|].
  simpl in *. apply not_elem_of_cons in Hfresh as [Hne Hfresh].
  rewrite decide_False by done. by rewrite IH.
Qed.

Lemma foldl_setitem_fresh {V} (pairs acc : list (string * V)) :
  NoDup (acc ++ pairs).*1 →
  foldl (λ d kv, setitem kv.1 kv.2 d) acc pairs = acc ++ pairs.
Proof.
  revert acc. induction pairs as [|[k v] pairs IH]; intros acc Hnd.
  { by rewrite app_nil_r. }
  simpl. rewrite setitem_fresh.
  - rewrite IH; rewrite <- app_assoc; done.
  - rewrite fmap_app in Hnd. apply NoDup_app in Hnd as (_ & Hdisj & _).
    intros Hin. apply (Hdisj k Hin). by left.
Qed.

(** Pairs with distinct keys make a dictionary with the same entries in
    the same order. *)
Lemma dict_of_pairs_NoDup {V} (pairs : list (string * V)) :
  NoDup pairs.*1 → dict_of_pairs pairs = pairs.
Proof. intros Hnd. by apply (foldl_setitem_fresh pairs []). Qed.

Lemma keys_of_tagged {V} (f : string → V) (xs : list string) :
  (map (λ b, (b, f b)) xs).*1 = xs.
Proof. induction xs as [|x xs IH]; [done|]. simpl. f_equal. exact IH. Qed.

Lemma index_branches_unfold smembers iteration :
  (∀ s, iteration s ≡ₚ elements s) →
  index_branches smembers iteration
  = map (λ b, (b, {| versions :=
                       sorted (iteration (smembers ("versions:" +:+ b))) |}))
        (sorted (iteration (smembers "branches"))).
Proof.
  intros Hiter. unfold index_branches. apply dict_of_pairs_NoDup.
  rewrite (keys_of_tagged (λ b, BranchInfo
             (sorted (iteration (smembers ("versions:" +:+ b)))))).
  rewrite sorted_Permutation, Hiter. apply NoDup_elements.
Qed.

(** C7: whatever the order in which the store's sets are iterated, the
    branch names come out in ascending lexicographic order, and so do the
    versions of every branch; both list exactly the members of the
    store's sets, and the directory does not depend on the iteration
    order. *)
Theorem index_branches_sorted smembers iteration :
  (∀ s, iteration s ≡ₚ elements s) →
  Sorted String.le (index_branches smembers iteration).*1 ∧
  (index_branches smembers iteration).*1 ≡ₚ elements (smembers "branches") ∧
  (∀ b info, (b, info) ∈ index_branches smembers iteration →
     Sorted String.le (versions info) ∧
     versions info ≡ₚ elements (smembers ("versions:" +:+ b))) ∧
  (∀ iteration', (∀ s, iteration' s ≡ₚ elements s) →
     index_branches smembers iteration' = index_branches smembers iteration).
Proof.
  intros Hiter.
  assert (Hkeys : (index_branches smembers iteration).*1
                  = sorted (iteration (smembers "branches"))).
  { rewrite index_branches_unfold by done.
    apply (keys_of_tagged (λ b, BranchInfo
             (sorted (iteration (smembers ("versions:" +:+ b)))))). }
  split; [|split; [|split]].
  - rewrite Hkeys. apply Sorted_sorted.
  - by rewrite Hkeys, sorted_Permutation.
  - intros b info Hin. rewrite index_branches_unfold in Hin by done.
    apply list_elem_of_fmap in Hin as (b' & [= -> ->] & _). simpl.
    split; [apply Sorted_sorted|]. by rewrite sorted_Permutation.
  - intros iteration' Hiter'. rewrite !index_branches_unfold by done.
    rewrite (sorted_order_irrelevant (iteration' (smembers "branches"))
               (iteration (smembers "branches")))
      by (by rewrite Hiter, Hiter').
    apply list_fmap_ext. intros _ b _. do 2 f_equal.
    apply sorted_order_irrelevant. by rewrite Hiter, Hiter'.
Qed.

End DirectoryFacts.

(** ** The theorems at concrete upstream states *)

Section Scenarios.

Import Scenario.

Local Abbreviation split_target_index base kmod :=
  (json_v1_target_index upstream_url (λ _, true) (packages_at base kmod)
     kernel_version_at target).

(** The scenario of C1, through its theorem. *)
Lemma target_index_kmod_merge_scenario :
  ∃ r m : dict,
    result (split_target_index base_manifest kmod_manifest) = inr r ∧
    r !! "packages" = Some (VDict m) ∧
    m !! "a" = Some (VStr "1.0") ∧
    m !! "b" = Some (VStr "2.0") ∧
    r !! "arch" = Some (VStr "x86").
Proof.
  destruct (target_index_kmod_merge upstream_url (λ _, true)
              (packages_at base_manifest kmod_manifest) kernel_version_at
              target base_manifest kmod_manifest kmods_directory
              {[ "a" := VStr "1.0" ]} {[ "b" := VStr "2.0" ]})
    as (r & m & Hr & Hp & Hk & Hb & Ho);
    try (vm_compute; reflexivity); [discriminate|].
  exists r, m. split; [exact Hr|]. split; [exact Hp|].
  split; [|split].
  - rewrite (Hb "a"); reflexivity.
  - apply (Hk "b"). reflexivity.
  - rewrite (Ho "arch"); [reflexivity|discriminate].
Defined.

(** The document of that scenario, evaluated. *)
Example target_index_scenario_document :
  result (split_target_index base_manifest kmod_manifest)
  = inr {[ "packages" := VDict {[ "a" := VStr "1.0"; "b" := VStr "2.0" ]};
           "arch" := VStr "x86" ]}.
Proof. vm_compute. reflexivity. Qed.

Lemma target_index_passthrough_scenario :
  result (json_v1_target_index upstream_url (λ _, true)
            (packages_at base_manifest kmod_manifest) (λ _, inr None)
            target)
  = inr base_manifest.
Proof.
  apply target_index_passthrough.
  - vm_compute. reflexivity.
  - right. exists None. split; reflexivity.
Defined.

Lemma merge_empty_kmod_identity_scenario :
  merge_kmod_packages base_manifest bare_manifest = inr base_manifest.
Proof.
  apply (merge_empty_kmod_identity base_manifest bare_manifest
           {[ "a" := VStr "1.0" ]}).
  - vm_compute. reflexivity.
  - left. vm_compute. reflexivity.
Defined.


Local Abbreviation three_feed_index luci :=
  (json_v1_arch_index upstream_url (feed_packages_at luci)
     (λ _, inr feeds) target arch).

(** The scenario of C2, through its theorem. *)
Lemma arch_index_last_feed_wins_scenario :
  ∃ merged : dict,
    result (three_feed_index (inr (foo "3"))) = inr merged ∧
    merged !! "foo" = Some (VStr "3").
Proof.
  destruct (arch_index_last_feed_wins upstream_url
              (feed_packages_at (inr (foo "3"))) (λ _, inr feeds)
              target arch feeds [foo "1"; foo "2"; foo "3"])
    as (merged & Hr & Hlast & _).
  - reflexivity.
  - unfold feeds.
    repeat (constructor;
              [split; [vm_compute; reflexivity | vm_compute; exact I]|]).
    constructor.
  - exists merged. split; [exact Hr|].
    apply (Hlast "foo" (VStr "3") 2 (foo "3") {[ "foo" := VStr "3" ]});
      try reflexivity.
    intros j m' p' Hlt Hj. destruct j as [|[|[|j]]]; try lia.
    discriminate Hj.
Defined.

Example arch_index_scenario_manifest :
  result (three_feed_index (inr (foo "3")))
  = inr {[ "foo" := VStr "3" ]}.
Proof. vm_compute. reflexivity. Qed.

Lemma arch_index_all_or_nothing_scenario :
  result (three_feed_index (inl UpstreamFetchError))
  = inl UpstreamFetchError.
Proof.
  apply (proj2 (arch_index_all_or_nothing upstream_url
           (feed_packages_at (inl UpstreamFetchError)) (λ _, inr feeds)
           target arch ["base"; "packages"] "luci" [] eq_refl eq_refl)).
  intros g Hg.
  repeat (apply elem_of_cons in Hg as [->|Hg]);
    try (vm_compute; exact I).
  apply elem_of_nil in Hg. destruct Hg.
Defined.

Lemma arch_index_no_feeds_scenario :
  result (json_v1_arch_index upstream_url
            (feed_packages_at (inl UpstreamFetchError)) (λ _, inr [])
            target arch)
  = inr ∅.
Proof.
  apply (proj1 (arch_index_no_feeds upstream_url
           (feed_packages_at (inl UpstreamFetchError)) (λ _, inr [])
           target arch eq_refl)).
Defined.

(** Iterating the store's sets backwards gives the same directory. *)
Lemma index_branches_sorted_scenario :
  index_branches smembers (reverse ∘ elements)
  = index_branches smembers elements.
Proof.
  apply (proj2 (proj2 (proj2 (index_branches_sorted smembers elements
           (λ s, reflexivity _))))).
  intros s. apply reverse_Permutation.
Defined.

Example index_branches_scenario_directory :
  index_branches smembers (reverse ∘ elements)
  = [("23.05", BranchInfo ["23.05.4"; "23.05.5"]);
     ("24.10", BranchInfo ["24.10.0"; "24.10.1"]);
     ("SNAPSHOT", BranchInfo [])].
Proof. vm_compute. reflexivity. Qed.

End Scenarios.


(** ** More on the target index: upstream calls and failures *)

Section TargetIndexEffects.

Context (upstream_url : string) (is_post_kmod_split_build : string → bool)
  (packages_at : string → exn + dict)
  (kernel_version_at : string → exn + option string).

Local Abbreviation target_index :=
  (json_v1_target_index upstream_url is_post_kmod_split_build
     packages_at kernel_version_at).
Local Abbreviation base_path path := (upstream_url +:+ "/" +:+ path).

(** X1: when the fetch of the base manifest raises, the handler ends with
    that exception, and the base manifest is the only thing it asked
    upstream for. *)
Theorem target_index_base_fetch_fails path e :
  packages_at (base_path path +:+ "/packages") = inl e →
  result (target_index path) = inl e ∧
  calls (target_index path)
  = [ParsePackagesFile (base_path path +:+ "/packages")].
Proof. intros Hbase. run_handler. by rewrite Hbase. Qed.

(** X2: with the base manifest fetched, a target without a kmod split costs
    that one fetch only; on a split whose kmod directory does not resolve
    (or whose resolution raises) the profiles document is read as well, and
    no kmod manifest is ever fetched. *)
Theorem target_index_no_kmod_fetch path base :
  packages_at (base_path path +:+ "/packages") = inr base →
  (is_post_kmod_split_build path = false →
     calls (target_index path)
     = [ParsePackagesFile (base_path path +:+ "/packages")]) ∧
  (is_post_kmod_split_build path = true →
     (∀ kd, kernel_version_at (base_path path +:+ "/profiles.json") = inr kd →
            truthy kd = false) →
     calls (target_index path)
     = [ParsePackagesFile (base_path path +:+ "/packages");
        ParseKernelVersion (base_path path +:+ "/profiles.json")]).
Proof.
  intros Hbase. split.
  - intros Hsplit. run_handler. by rewrite Hbase, Hsplit.
  - intros Hsplit Hkd. run_handler. rewrite Hbase, Hsplit. simpl.
    destruct (kernel_version_at _) as [e|kd] eqn:Hkv; [done|].
    by rewrite (Hkd kd eq_refl).
Qed.

(** X3: on the merge path the handler asks upstream for the base manifest,
    then the profiles document, then the kmod manifest under the resolved
    directory, in this order and whatever the last fetch answers. *)
Theorem target_index_merge_path_calls path base kd :
  packages_at (base_path path +:+ "/packages") = inr base →
  is_post_kmod_split_build path = true →
  kernel_version_at (base_path path +:+ "/profiles.json") = inr (Some kd) →
  kd ≠ "" →
  calls (target_index path)
  = [ParsePackagesFile (base_path path +:+ "/packages");
     ParseKernelVersion (base_path path +:+ "/profiles.json");
     ParsePackagesFile (base_path path +:+ "/kmods/" +:+ kd)].
Proof.
  intros Hbase Hsplit Hkv Hkd. run_handler.
  rewrite Hbase, Hsplit. simpl. rewrite Hkv.
  assert (truthy (Some kd) = true) as -> by (by destruct kd).
  simpl.
  by destruct (packages_at (base_path path +:+ "/kmods/" +:+ kd)) as [e|kmod].
Qed.

(** X4: on a kmod split, an exception raised while resolving the kmod
    directory or while fetching the kmod manifest ends the handler; the base
    manifest already fetched is not returned in its place. *)
Theorem target_index_kmod_failure_propagates path base e :
  packages_at (base_path path +:+ "/packages") = inr base →
  is_post_kmod_split_build path = true →
  (kernel_version_at (base_path path +:+ "/profiles.json") = inl e →
     result (target_index path) = inl e) ∧
  (∀ kd, kernel_version_at (base_path path +:+ "/profiles.json")
         = inr (Some kd) →
         kd ≠ "" →
         packages_at (base_path path +:+ "/kmods/" +:+ kd) = inl e →
         result (target_index path) = inl e).
Proof.
  intros Hbase Hsplit. split.
  - intros Hkv. run_handler. rewrite Hbase, Hsplit. simpl. by rewrite Hkv.
  - intros kd Hkv Hkd Hkmod. run_handler.
    rewrite Hbase, Hsplit. simpl. rewrite Hkv.
    assert (truthy (Some kd) = true) as -> by (by destruct kd).
    simpl. by rewrite Hkmod.
Qed.

End TargetIndexEffects.

(** ** More on the kmod merge *)

Section MergeFacts.

Implicit Types base kmod r : dict.

(** What a successful merge looks like. *)
Lemma merge_kmod_packages_inr base kmod r :
  merge_kmod_packages base kmod = inr r →
  ∃ bp m : dict,
    base !! "packages" = Some (VDict bp) ∧
    dict_update bp (get kmod "packages" (VDict ∅)) = inr m ∧
    r = <["packages" := VDict m]> base.
Proof.
  unfold merge_kmod_packages, getitem, update.
  destruct (base !! "packages") as [[| |bp]|]; try done.
  destruct (dict_update bp _) as [|m] eqn:Hm; [done|].
  intros [= <-]. by exists bp, m.
Qed.

Lemma dict_update_inr (self m : dict) other :
  dict_update self other = inr m →
  self ⊆ m ∨ ∃ o : dict, other = VDict o ∧ m = o ∪ self.
Proof.
  destruct other as [[|]| |o]; simpl; intros [= <-]; eauto.
Qed.

Lemma dict_update_twice (self m : dict) other :
  dict_update self other = inr m → dict_update m other = inr m.
Proof.
  destruct other as [[|]| |o]; simpl; intros [= <-]; try done.
  f_equal. by rewrite (assoc_L (∪)), (idemp_L (∪)).
Qed.

(** X5: merging the same kmod manifest a second time changes nothing. *)
Theorem merge_kmod_packages_idempotent base kmod r :
  merge_kmod_packages base kmod = inr r →
  merge_kmod_packages r kmod = inr r.
Proof.
  intros (bp & m & Hbp & Hm & ->)%merge_kmod_packages_inr.
  unfold merge_kmod_packages, getitem, update.
  rewrite lookup_insert_eq, (dict_update_twice bp m _ Hm).
  by rewrite insert_insert_eq.
Qed.

(** X6: the exceptions of the merge.  A base manifest whose [packages] is
    not a mapping ends it with [AttributeError], whatever the kmod manifest
    holds; under a base mapping, a kmod [packages] that is a number ends it
    with [TypeError] and one that is a non-empty string with [ValueError],
    while the empty string is taken as no packages. *)
Theorem merge_kmod_packages_exceptions base kmod (bp : dict) :
  (∀ v, base !! "packages" = Some v → (∀ p, v ≠ VDict p) →
        merge_kmod_packages base kmod = inl AttributeError) ∧
  (base !! "packages" = Some (VDict bp) →
     (∀ n, kmod !! "packages" = Some (VNum n) →
           merge_kmod_packages base kmod = inl TypeError) ∧
     (∀ s, kmod !! "packages" = Some (VStr s) → s ≠ "" →
           merge_kmod_packages base kmod = inl ValueError) ∧
     (kmod !! "packages" = Some (VStr "") →
        merge_kmod_packages base kmod = inr base)).
Proof.
  unfold merge_kmod_packages, getitem, update, get. split.
  - intros v -> Hv. destruct v as [s|n|p]; [done..|].
    destruct (Hv p eq_refl).
  - intros Hbp. rewrite Hbp. split; [|split].
    + by intros n ->.
    + intros s -> Hs. by destruct s.
    + intros ->. simpl. by rewrite insert_id.
Qed.

(** X7: a successful merge keeps the document's fields and the base
    packages' names: the result has the fields of the base document, all but
    [packages] with their values, and every package the base manifest names
    is still named afterwards. *)
Theorem merge_kmod_packages_keeps base kmod r :
  merge_kmod_packages base kmod = inr r →
  dom r = dom base ∧
  (∀ field, field ≠ "packages" → r !! field = base !! field) ∧
  ∃ bp m : dict,
    base !! "packages" = Some (VDict bp) ∧
    r !! "packages" = Some (VDict m) ∧
    dom bp ⊆ dom m.
Proof.
  intros (bp & m & Hbp & Hm & ->)%merge_kmod_packages_inr.
  split; [|split].
  - rewrite dom_insert_L. apply subseteq_union_1_L, singleton_subseteq_l.
    by apply elem_of_dom_2 in Hbp.
  - intros field Hne. by apply lookup_insert_ne.
  - exists bp, m. split; [done|]. split; [apply lookup_insert_eq|].
    destruct (dict_update_inr _ _ _ Hm) as [Hsub|(o & _ & ->)].
    + by apply subseteq_dom.
    + rewrite dom_union. set_solver.
Qed.

End MergeFacts.

(** ** More on the architecture index *)

Section ArchIndexEffects.

Context (upstream_url : string) (packages_at : string → exn + dict)
  (feeds_at : string → exn + list string).

Local Abbreviation arch_index :=
  (json_v1_arch_index upstream_url packages_at feeds_at).
Local Abbreviation loop := (arch_index_loop packages_at).
Local Abbreviation feed_url path arch :=
  (upstream_url +:+ "/" +:+ path +:+ "/" +:+ arch).
Local Abbreviation fetch url := (λ feed, ParsePackagesFile (url +:+ "/" +:+ feed)).

(** The loop up to the first feed whose fetch raises. *)
Lemma arch_index_loop_stops url pre feed post e acc log :
  Forall (λ g, ∃ m, packages_at (url +:+ "/" +:+ g) = inr m
                    ∧ packages_typed m) pre →
  packages_at (url +:+ "/" +:+ feed) = inl e →
  loop url (pre ++ feed :: post) acc log
  = (inl e, log ++ map (fetch url) (pre ++ [feed])).
Proof.
  intros Hpre Hfail. revert acc log.
  induction Hpre as [|g pre (m & Hm & Tm) _ IH]; intros acc log; simpl;
    unfold mbind, M_bind, parse_packages_file, lift.
  - by rewrite Hfail.
  - rewrite Hm, (dict_update_typed acc m Tm), IH. by rewrite <- app_assoc.
Qed.

(** The loop up to the first feed whose [packages] cannot be merged. *)
Lemma arch_index_loop_bad_packages url pre feed post m e acc log :
  Forall (λ g, ∃ m, packages_at (url +:+ "/" +:+ g) = inr m
                    ∧ packages_typed m) pre →
  packages_at (url +:+ "/" +:+ feed) = inr m →
  (∀ acc', dict_update acc' (get m "packages" (VDict ∅)) = inl e) →
  loop url (pre ++ feed :: post) acc log
  = (inl e, log ++ map (fetch url) (pre ++ [feed])).
Proof.
  intros Hpre Hm Hbad. revert acc log.
  induction Hpre as [|g pre (m' & Hm' & Tm') _ IH]; intros acc log; simpl;
    unfold mbind, M_bind, parse_packages_file, lift.
  - by rewrite Hm, Hbad.
  - rewrite Hm', (dict_update_typed acc m' Tm'), IH. by rewrite <- app_assoc.
Qed.

Lemma Forall2_fetched url feeds :
  Forall (λ g, ∃ m, packages_at (url +:+ "/" +:+ g) = inr m
                    ∧ packages_typed m) feeds →
  ∃ manifests,
    Forall2 (λ feed m, packages_at (url +:+ "/" +:+ feed) = inr m
                       ∧ packages_typed m) feeds manifests.
Proof.
  induction 1 as [|g feeds (m & Hm) _ (ms & IH)]; [by exists []|].
  exists (m :: ms). by constructor.
Qed.

(** X8: when every feed answers with a manifest whose [packages] is absent
    or a mapping, the handler reads the feed list once and then fetches one
    manifest per entry of the list, in the order of the list. *)
Theorem arch_index_calls path arch feeds :
  feeds_at (feed_url path arch) = inr feeds →
  Forall (λ g, ∃ m, packages_at (feed_url path arch +:+ "/" +:+ g) = inr m
                    ∧ packages_typed m) feeds →
  calls (arch_index path arch)
  = ParseFeedsConf (feed_url path arch)
    :: map (fetch (feed_url path arch)) feeds.
Proof.
  intros Hfeeds (manifests & Hall)%Forall2_fetched.
  run_handler. rewrite Hfeeds.
  by rewrite (arch_index_loop_ok _ _ feeds manifests).
Qed.

(** X9: when the fetch of a feed raises and every feed listed before it
    answered with a manifest whose [packages] is absent or a mapping, the
    handler stops there: it ends with the exception of that fetch, having
    fetched the feeds up to that one in order, and the feeds listed after it
    are never fetched. *)
Theorem arch_index_stops_at_first_failure path arch pre feed post e :
  feeds_at (feed_url path arch) = inr (pre ++ feed :: post) →
  Forall (λ g, ∃ m, packages_at (feed_url path arch +:+ "/" +:+ g) = inr m
                    ∧ packages_typed m) pre →
  packages_at (feed_url path arch +:+ "/" +:+ feed) = inl e →
  result (arch_index path arch) = inl e ∧
  calls (arch_index path arch)
  = ParseFeedsConf (feed_url path arch)
    :: map (fetch (feed_url path arch)) (pre ++ [feed]).
Proof.
  intros Hfeeds Hpre Hfail.
  assert (Hrun : arch_index path arch []
                 = (inl e, ParseFeedsConf (feed_url path arch)
                           :: map (fetch (feed_url path arch)) (pre ++ [feed]))).
  { run_handler. rewrite Hfeeds.
    by rewrite (arch_index_loop_stops _ pre feed post e). }
  unfold result, calls. by rewrite Hrun.
Qed.

(** X10: when reading the feed list raises, the handler ends with that
    exception and fetches no manifest. *)
Theorem arch_index_feeds_conf_fails path arch e :
  feeds_at (feed_url path arch) = inl e →
  result (arch_index path arch) = inl e ∧
  calls (arch_index path arch) = [ParseFeedsConf (feed_url path arch)].
Proof. intros Hfeeds. run_handler. by rewrite Hfeeds. Qed.

(** Where a binding of the accumulator comes from. *)
Lemma foldl_contribution_Some name v (manifests : list dict) (acc : dict) :
  foldl (λ a m, contribution m ∪ a) acc manifests !! name = Some v →
  (∃ i m, manifests !! i = Some m ∧ contribution m !! name = Some v ∧
          ∀ j m', i < j → manifests !! j = Some m' →
                  contribution m' !! name = None) ∨
  (acc !! name = Some v ∧
   ∀ m, m ∈ manifests → contribution m !! name = None).
Proof.
  revert acc. induction manifests as [|m0 ms IH]; intros acc; simpl.
  { intros Hv. right. split; [done|]. by intros m ?%elem_of_nil. }
  intros [(i & m & Hi & Hv & Hlater)|[Hacc Hnone]]%IH.
  - left. exists (S i), m. split; [done|]. split; [done|].
    intros [|j] m' Hlt Hj; [lia|]. apply (Hlater j); [lia|done].
  - apply lookup_union_Some_raw in Hacc as [Hm0|[Hm0 Hacc]].
    + left. exists 0, m0. split; [done|]. split; [done|].
      intros [|j] m' Hlt Hj; [lia|]. simpl in Hj.
      apply Hnone, list_elem_of_lookup. eauto.
    + right. split; [done|].
      intros m [->|Hm]%elem_of_cons; [done|]. by apply Hnone.
Qed.




(** X12: a feed whose [packages] field is a number or a non-empty string is
    not skipped: the handler ends with [TypeError], respectively
    [ValueError], at that feed. *)
Theorem arch_index_bad_packages_field path arch pre feed post (m : dict) :
  feeds_at (feed_url path arch) = inr (pre ++ feed :: post) →
  Forall (λ g, ∃ m, packages_at (feed_url path arch +:+ "/" +:+ g) = inr m
                    ∧ packages_typed m) pre →
  packages_at (feed_url path arch +:+ "/" +:+ feed) = inr m →
  (∀ n, m !! "packages" = Some (VNum n) →
        result (arch_index path arch) = inl TypeError) ∧
  (∀ s, m !! "packages" = Some (VStr s) → s ≠ "" →
        result (arch_index path arch) = inl ValueError).
Proof.
  intros Hfeeds Hpre Hm. split.
  - intros n Hn. run_handler. rewrite Hfeeds.
    rewrite (arch_index_loop_bad_packages _ pre feed post m TypeError);
      try done.
    intros acc'. unfold get. by rewrite Hn.
  - intros s Hs Hne. run_handler. rewrite Hfeeds.
    rewrite (arch_index_loop_bad_packages _ pre feed post m ValueError);
      try done.
    intros acc'. unfold get. rewrite Hs. by destruct s.
Qed.

End ArchIndexEffects.

(** ** The order of feeds that share no package *)

Section ArchIndexOrder.

Context (upstream_url : string) (packages_at : string → exn + dict).

Local Abbreviation feed_url path arch :=
  (upstream_url +:+ "/" +:+ path +:+ "/" +:+ arch).

Lemma foldl_contribution_None name (manifests : list dict) (acc : dict) :
  foldl (λ a m, contribution m ∪ a) acc manifests !! name = None →
  acc !! name = None ∧ ∀ m, m ∈ manifests → contribution m !! name = None.
Proof.
  revert acc. induction manifests as [|m0 ms IH]; intros acc; simpl.
  { intros Hacc. split; [done|]. by intros m ?%elem_of_nil. }
  intros [[Hm0 Hacc]%lookup_union_None Hms]%IH. split; [done|].
  intros m [->|Hm]%elem_of_cons; [done|]. by apply Hms.
Qed.

(** With feeds that share no package, a package is bound in the accumulator
    exactly when some feed binds it, to that feed's value. *)
Lemma foldl_contribution_disjoint (doc : string → dict) feeds name v :
  (∀ f g, f ∈ feeds → g ∈ feeds → f ≠ g →
     is_Some (contribution (doc f) !! name) →
     contribution (doc g) !! name = None) →
  foldl (λ a m, contribution m ∪ a) ∅ (doc <$> feeds) !! name = Some v
  ↔ ∃ f, f ∈ feeds ∧ contribution (doc f) !! name = Some v.
Proof.
  intros Hdisj.
  assert (Hfrom : ∀ w,
    foldl (λ a m, contribution m ∪ a) ∅ (doc <$> feeds) !! name = Some w →
    ∃ g, g ∈ feeds ∧ contribution (doc g) !! name = Some w).
  { intros w [(i & m & Hi & Hm & _)|[Hempty _]]%foldl_contribution_Some;
      [|by rewrite lookup_empty in Hempty].
    apply list_lookup_fmap_Some in Hi as (g & -> & Hg).
    exists g. split; [|done]. apply list_elem_of_lookup. eauto. }
  split; [apply Hfrom|].
  intros (f & Hf & Hv).
  destruct (foldl (λ a m, contribution m ∪ a) ∅ (doc <$> feeds) !! name)
    as [w|] eqn:Hw.
  - destruct (Hfrom w eq_refl) as (g & Hg & Hgw).
    destruct (decide (f = g)) as [->|Hne]; [congruence|].
    rewrite (Hdisj f g Hf Hg Hne) in Hgw; [done|]. by rewrite Hv.
  - apply foldl_contribution_None in Hw as [_ Hnone].
    rewrite Hnone in Hv; [done|]. by apply list_elem_of_fmap_2.
Qed.

Lemma Forall2_fetched_doc url (doc : string → dict) feeds :
  (∀ f, f ∈ feeds →
     packages_at (url +:+ "/" +:+ f) = inr (doc f) ∧ packages_typed (doc f)) →
  Forall2 (λ feed m, packages_at (url +:+ "/" +:+ feed) = inr m
                     ∧ packages_typed m) feeds (doc <$> feeds).
Proof.
  induction feeds as [|f feeds IH]; intros H; [constructor|].
  simpl. constructor; [apply H; by left|]. apply IH.
  intros g Hg. apply H. by right.
Qed.

(** X13: the order of the feed list matters for colliding packages only:
    when no two feeds of the list bind the same package, listing the same
    feeds in another order gives the same manifest. *)
Theorem arch_index_disjoint_feeds_any_order path arch
    (feeds_at feeds_at' : string → exn + list string) feeds feeds'
    (doc : string → dict) :
  feeds_at (feed_url path arch) = inr feeds →
  feeds_at' (feed_url path arch) = inr feeds' →
  feeds ≡ₚ feeds' →
  (∀ f, f ∈ feeds →
     packages_at (feed_url path arch +:+ "/" +:+ f) = inr (doc f)
     ∧ packages_typed (doc f)) →
  (∀ f g name, f ∈ feeds → g ∈ feeds → f ≠ g →
     is_Some (contribution (doc f) !! name) →
     contribution (doc g) !! name = None) →
  result (json_v1_arch_index upstream_url packages_at feeds_at path arch)
  = result (json_v1_arch_index upstream_url packages_at feeds_at' path arch).
Proof.
  intros Hfeeds Hfeeds' Hperm Hdoc Hdisj.
  run_handler. rewrite Hfeeds, Hfeeds'.
  rewrite (arch_index_loop_ok _ _ feeds (doc <$> feeds))
    by by apply Forall2_fetched_doc.
  rewrite (arch_index_loop_ok _ _ feeds' (doc <$> feeds')).
  2:{ apply Forall2_fetched_doc. intros f Hf. apply Hdoc. by rewrite Hperm. }
  simpl. f_equal. apply map_eq. intros name. apply option_eq. intros v.
  rewrite !foldl_contribution_disjoint.
  - by setoid_rewrite Hperm.
  - intros f g Hf Hg. rewrite <- Hperm in Hf, Hg. by apply Hdisj.
  - intros f g. by apply Hdisj.
Qed.

End ArchIndexOrder.

(** ** More on the branch directory *)

Section DirectoryEntries.

Context (smembers : string → gset string)
  (iteration : gset string → list string).

Local Abbreviation entry b :=
  (BranchInfo (sorted (iteration (smembers ("versions:" +:+ b))))).

Lemma index_branches_keys :
  (∀ s, iteration s ≡ₚ elements s) →
  (index_branches smembers iteration).*1
  = sorted (iteration (smembers "branches")).
Proof.
  intros Hiter. rewrite index_branches_unfold by done.
  apply (keys_of_tagged (λ b, entry b)).
Qed.

(** X14: the directory has one entry per branch of the store: its keys are
    pairwise distinct, they are exactly the members of the branch set, and
    there are as many entries as branches. *)
Theorem index_branches_one_entry_per_branch :
  (∀ s, iteration s ≡ₚ elements s) →
  NoDup (index_branches smembers iteration).*1 ∧
  (∀ b, b ∈ (index_branches smembers iteration).*1
        ↔ b ∈ smembers "branches") ∧
  length (index_branches smembers iteration) = size (smembers "branches").
Proof.
  intros Hiter. split; [|split].
  - rewrite index_branches_keys, sorted_Permutation, Hiter by done.
    apply NoDup_elements.
  - intros b.
    rewrite index_branches_keys, sorted_Permutation, Hiter by done.
    apply elem_of_elements.
  - rewrite <- (length_fmap fst), index_branches_keys by done.
    by rewrite sorted_Permutation, Hiter.
Qed.

(** X15: a branch of the store is listed with exactly the versions the
    store holds for it; a branch for which the store holds no version is
    listed with an empty version list, not left out. *)
Theorem index_branches_entry b :
  (∀ s, iteration s ≡ₚ elements s) →
  b ∈ smembers "branches" →
  ∃ info,
    (b, info) ∈ index_branches smembers iteration ∧
    (∀ v, v ∈ versions info ↔ v ∈ smembers ("versions:" +:+ b)) ∧
    (smembers ("versions:" +:+ b) = ∅ → versions info = []).
Proof.
  intros Hiter Hb. exists (entry b). split; [|split].
  - rewrite index_branches_unfold by done.
    apply (list_elem_of_fmap_2 (λ b, (b, entry b))).
    rewrite sorted_Permutation, Hiter. by apply elem_of_elements.
  - intros v. simpl. rewrite sorted_Permutation, Hiter.
    apply elem_of_elements.
  - intros Hempty. simpl. rewrite Hempty.
    assert (iteration ∅ = []) as ->; [|done].
    apply Permutation_nil_r. by rewrite Hiter, elements_empty.
Qed.

End DirectoryEntries.

(** ** The routes *)

Section StringFacts.

Lemma string_app_cons a (s1 s2 : string) :
  String a s1 +:+ s2 = String a (s1 +:+ s2).
Proof. reflexivity. Qed.

Lemma string_app_assoc (s1 s2 s3 : string) :
  (s1 +:+ s2) +:+ s3 = s1 +:+ s2 +:+ s3.
Proof.
  induction s1 as [|a s1 IH]; [done|]. by rewrite !string_app_cons, IH.
Qed.

Lemma rev_app_acc (s acc : string) :
  String.rev_app s acc = String.rev s +:+ acc.
Proof.
  unfold String.rev. revert acc.
  induction s as [|a s IH]; intros acc; [done|]. simpl.
  rewrite (IH (String a acc)), (IH (String a "")).
  by rewrite string_app_assoc.
Qed.

Lemma rev_app_app (s1 s2 acc : string) :
  String.rev_app (s1 +:+ s2) acc = String.rev_app s2 (String.rev_app s1 acc).
Proof.
  revert acc. induction s1 as [|a s1 IH]; intros acc; [done|].
  rewrite string_app_cons. simpl. by rewrite IH.
Qed.

Lemma rev_app_distr (s1 s2 : string) :
  String.rev (s1 +:+ s2) = String.rev s2 +:+ String.rev s1.
Proof. unfold String.rev at 1. by rewrite rev_app_app, rev_app_acc. Qed.

Lemma rev_involutive (s : string) : String.rev (String.rev s) = s.
Proof.
  induction s as [|a s IH]; [done|].
  change (String a s) with (String a "" +:+ s) at 1.
  by rewrite !rev_app_distr, IH.
Qed.

Lemma strip_prefix_app (p s : string) : strip_prefix p (p +:+ s) = Some s.
Proof.
  induction p as [|a p IH]; [by destruct s|].
  rewrite string_app_cons. simpl. by rewrite decide_True.
Qed.

Lemma strip_prefix_Some (p s r : string) :
  strip_prefix p s = Some r → s = p +:+ r.
Proof.
  revert s. induction p as [|a p IH]; intros s; simpl.
  { by intros [= <-]. }
  destruct s as [|b s]; [done|]. case_decide; [|done].
  intros ->%IH. by subst.
Qed.

Lemma strip_suffix_app (p s : string) : strip_suffix p (s +:+ p) = Some s.
Proof.
  unfold strip_suffix. rewrite rev_app_distr, strip_prefix_app. simpl.
  by rewrite rev_involutive.
Qed.

Lemma split_slash_Some (s x y : string) :
  split_slash s = Some (x, y) → s = x +:+ "/" +:+ y.
Proof.
  revert x. induction s as [|a s IH]; intros x; simpl; [done|].
  case_decide as Ha.
  - intros [= <- <-]. by rewrite Ha.
  - destruct (split_slash s) as [[x' y']|]; simpl; [|done].
    intros [= <- <-]. by rewrite string_app_cons, (IH x' eq_refl).
Qed.

Lemma split_slash_app (x y : string) :
  split_slash x = None → split_slash (x +:+ "/" +:+ y) = Some (x, y).
Proof.
  induction x as [|a x IH]; [done|].
  rewrite string_app_cons. simpl. case_decide; [done|].
  destruct (split_slash x) as [[x' y']|]; simpl; [done|].
  intros _. by rewrite IH.
Qed.

(** Splitting at the last separator undoes joining with a last part that
    has no separator. *)
Lemma rsplit_slash_app (p a : string) :
  (∀ x y : string, a ≠ x +:+ "/" +:+ y) →
  rsplit_slash (p +:+ "/" +:+ a) = Some (p, a).
Proof.
  intros Ha. unfold rsplit_slash.
  rewrite rev_app_distr, (rev_app_distr "/" a), string_app_assoc.
  change (String.rev "/") with "/".
  rewrite split_slash_app; simpl.
  - by rewrite !rev_involutive.
  - destruct (split_slash (String.rev a)) as [[x y]|] eqn:Hsplit; [|done].
    apply split_slash_Some in Hsplit.
    destruct (Ha (String.rev y) (String.rev x)).
    rewrite <- (rev_involutive a), Hsplit.
    rewrite rev_app_distr, (rev_app_distr "/" y), string_app_assoc.
    reflexivity.
Qed.

Lemma strip_suffix_Some (p s r : string) :
  strip_suffix p s = Some r → s = r +:+ p.
Proof.
  unfold strip_suffix.
  destruct (strip_prefix (String.rev p) (String.rev s)) as [r'|] eqn:Hr';
    simpl; [|done].
  intros [= <-]. apply strip_prefix_Some in Hr'.
  by rewrite <- (rev_involutive s), Hr', rev_app_distr, rev_involutive.
Qed.

Lemma split_slash_is_Some (x y : string) :
  is_Some (split_slash (x +:+ "/" +:+ y)).
Proof.
  induction x as [|a x [[x' y'] IH]]; [by eexists|].
  rewrite string_app_cons. simpl. case_decide; [by eexists|].
  rewrite IH. by eexists.
Qed.

Lemma no_separator (a : string) :
  split_slash a = None → ∀ x y : string, a ≠ x +:+ "/" +:+ y.
Proof.
  intros Hnone x y ->. destruct (split_slash_is_Some x y) as [xy Hxy].
  congruence.
Qed.

Lemma has_line_feed_app (s1 s2 : string) :
  has_line_feed (s1 +:+ s2) = has_line_feed s1 || has_line_feed s2.
Proof.
  induction s1 as [|a s1 IH]; [done|].
  rewrite string_app_cons. simpl. by rewrite IH, orb_assoc.
Qed.

(** A path without line feed is spanned whole. *)
Lemma regex_span_clean (s : string) :
  has_line_feed s = false → regex_span s = Some s.
Proof.
  intros Hclean. unfold regex_span.
  destruct (strip_suffix (String line_feed "") s) as [r|] eqn:Hr; simpl.
  - apply strip_suffix_Some in Hr. subst s.
    rewrite has_line_feed_app in Hclean.
    by rewrite orb_true_r in Hclean.
  - by rewrite Hclean.
Qed.

(** One line feed at the end is left out of the span. *)
Lemma regex_span_line_feed (s : string) :
  has_line_feed s = false →
  regex_span (s +:+ String line_feed "") = Some s.
Proof.
  intros Hclean. unfold regex_span. rewrite strip_suffix_app. simpl.
  by rewrite Hclean.
Qed.

Lemma regex_span_Some (url_path s : string) :
  regex_span url_path = Some s →
  has_line_feed s = false ∧
  (url_path = s ∨ url_path = s +:+ String line_feed "").
Proof.
  unfold regex_span.
  destruct (strip_suffix (String line_feed "") url_path) as [r|] eqn:Hr;
    simpl.
  - apply strip_suffix_Some in Hr.
    destruct (has_line_feed r) eqn:Hclean; [done|]. intros [= <-]. auto.
  - destruct (has_line_feed url_path) eqn:Hclean; [done|].
    intros [= <-]. auto.
Qed.

Lemma option_union_Some_inv {A} (a b : option A) x :
  a ∪ b = Some x → a = Some x ∨ (a = None ∧ b = Some x).
Proof. destruct a, b; intros [= <-]; auto. Qed.

End StringFacts.

Section RouteFacts.

Context (api_routes : string → bool).

(** A route that cannot answer with the endpoint in [H]. *)
Ltac dead H :=
  solve [ repeat (match type of H with
                  | context [if ?b then _ else _] => destruct b
                  | context [_ <$> ?m] => destruct m
                  | context [match ?m with _ => _ end] => destruct m
                  end; simpl in H);
          discriminate H ].

(** From the last route to the first: either an earlier route answered, or
    the last one did. *)
Ltac last_route H :=
  apply option_union_Some_inv in H as [H|[_ H]].

Ltac no_earlier_route H :=
  repeat (last_route H; [|dead H]); dead H.

Lemma match_exact_span lit url_path s :
  regex_span url_path = Some s →
  match_exact lit url_path = bool_decide (s = lit).
Proof.
  intros Hspan. unfold match_exact. rewrite Hspan.
  apply bool_decide_ext. split; [by intros [= ->]|by intros ->].
Qed.

(** The routes at a path that is not under [/api/v1], by what the
    expressions span. *)
Lemma dispatch_span url_path s :
  strip_prefix "/api/v1" url_path = None →
  regex_span url_path = Some s →
  dispatch api_routes url_path
  = (if bool_decide (s = "/openapi.json") then Some OpenapiJson else None)
    ∪ (if bool_decide (s = "/docs") then Some SwaggerUi else None)
    ∪ (if bool_decide (s = "/docs/oauth2-redirect")
       then Some SwaggerUiRedirect else None)
    ∪ (if bool_decide (s = "/redoc") then Some Redoc else None)
    ∪ None
    ∪ (StoreFiles <$> strip_prefix "/store/" s)
    ∪ (StaticFiles <$> strip_prefix "/static/" s)
    ∪ (if bool_decide (s = "/") then Some Index else None)
    ∪ (JsonV1TargetIndex <$>
         (strip_prefix "/json/v1/" s ≫= strip_suffix "/index.json"))
    ∪ ((λ pa, JsonV1ArchIndex pa.1 pa.2) <$>
         (strip_prefix "/json/v1/" s ≫= λ rest,
          strip_suffix "-index.json" rest ≫= rsplit_slash))
    ∪ (JsonFiles <$> strip_prefix "/json/" s)
    ∪ (ApiDoubleSlash <$> strip_prefix "//" s)
    ∪ (if bool_decide (s = "/overview") then Some ApiOverview else None).
Proof.
  intros Hapi Hspan. unfold dispatch.
  rewrite !(match_exact_span _ url_path s Hspan), Hapi.
  unfold match_mount, match_target_index, match_arch_index,
    match_double_slash.
  by rewrite Hspan.
Qed.

Lemma dispatch_double_slash url_path rest path :
  url_path = "//" +:+ rest →
  regex_span url_path = Some ("//" +:+ path) →
  dispatch api_routes url_path = Some (ApiDoubleSlash path).
Proof.
  intros -> Hspan.
  by rewrite (dispatch_span ("//" +:+ rest) ("//" +:+ path) eq_refl Hspan).
Qed.

(** C8, as the route is written: a request path that starts with two
    separators and has no line feed is answered with a permanent redirect
    to the path with the first of the two separators removed. *)
Theorem double_slash_redirect path :
  has_line_feed path = false →
  serve api_routes ("//" +:+ path) = RedirectResponse ("/" +:+ path) 301.
Proof.
  intros Hclean. unfold serve.
  by rewrite (dispatch_double_slash _ path path eq_refl
                (regex_span_clean ("//" +:+ path) Hclean)).
Qed.

(** X16: the redirect of [api_double_slash] with a given [path] is sent for
    the request path made of two separators and [path], with or without a
    line feed after it, where [path] has no line feed; it is sent for no
    other request path. *)
Theorem dispatch_double_slash_iff url_path path :
  dispatch api_routes url_path = Some (ApiDoubleSlash path)
  ↔ has_line_feed path = false ∧
    (url_path = "//" +:+ path
     ∨ url_path = "//" +:+ path +:+ String line_feed "").
Proof.
  split.
  - intros H. unfold dispatch in H.
    last_route H; [|dead H]. last_route H; [no_earlier_route H|].
    destruct (match_double_slash url_path) as [p|] eqn:Hp; [|done].
    injection H as ->. unfold match_double_slash in Hp.
    destruct (regex_span url_path) as [s|] eqn:Hspan; [|done].
    change (strip_prefix "//" s = Some path) in Hp.
    apply strip_prefix_Some in Hp as ->.
    apply regex_span_Some in Hspan as [Hclean Hurl]. split; [done|].
    by rewrite <- string_app_assoc.
  - intros [Hclean [->| ->]].
    + by apply (dispatch_double_slash _ path), regex_span_clean.
    + apply (dispatch_double_slash _ (path +:+ String line_feed "") path);
        [done|].
      rewrite <- string_app_assoc. by apply regex_span_line_feed.
Qed.

(** X17: [api_overview] answers the path [/overview], with or without a
    line feed after it, and no other path; its answer is a permanent
    redirect to a document under the [/json] mount. *)
Theorem dispatch_overview_iff url_path :
  (dispatch api_routes url_path = Some ApiOverview
   ↔ url_path = "/overview"
     ∨ url_path = "/overview" +:+ String line_feed "") ∧
  serve api_routes "/overview"
  = RedirectResponse "/json/v1/overview.json" 301 ∧
  dispatch api_routes "/json/v1/overview.json"
  = Some (JsonFiles "v1/overview.json").
Proof.
  split; [split|split; reflexivity].
  - intros H. unfold dispatch in H.
    last_route H; [no_earlier_route H|].
    destruct (match_exact "/overview" url_path) eqn:Hm; [|done].
    apply bool_decide_eq_true in Hm.
    by apply regex_span_Some in Hm as [_ Hurl].
  - by intros [->| ->].
Qed.

Lemma strip_suffix_index_json (s : string) :
  strip_suffix "/index.json" (s +:+ "-index.json") = None.
Proof. unfold strip_suffix. by rewrite rev_app_distr. Qed.

(** X18: a path [/json/v1/{path}/index.json] without line feed is routed to
    [json_v1_target_index] with that [path]; the route is registered before
    the [/json] mount and takes the request first. *)
Theorem dispatch_target_index path :
  has_line_feed path = false →
  dispatch api_routes ("/json/v1/" +:+ path +:+ "/index.json")
  = Some (JsonV1TargetIndex path).
Proof.
  intros Hclean.
  rewrite (dispatch_span ("/json/v1/" +:+ path +:+ "/index.json")
             ("/json/v1/" +:+ path +:+ "/index.json") eq_refl).
  2:{ apply regex_span_clean. rewrite !has_line_feed_app, Hclean. done. }
  change (strip_prefix "/json/v1/" ("/json/v1/" +:+ path +:+ "/index.json"))
    with (Some (path +:+ "/index.json")).
  simpl. rewrite strip_suffix_app. simpl.
  by destruct (strip_suffix "-index.json" _ ≫= rsplit_slash).
Qed.

(** X19: a path [/json/v1/{path}/{arch}-index.json] without line feed whose
    [arch] has no separator is routed to [json_v1_arch_index] with that
    [path] and that [arch]. *)
Theorem dispatch_arch_index path arch :
  has_line_feed path = false →
  has_line_feed arch = false →
  (∀ x y : string, arch ≠ x +:+ "/" +:+ y) →
  dispatch api_routes
    ("/json/v1/" +:+ path +:+ "/" +:+ arch +:+ "-index.json")
  = Some (JsonV1ArchIndex path arch).
Proof.
  intros Hpath Harch Hsep.
  rewrite (dispatch_span
             ("/json/v1/" +:+ path +:+ "/" +:+ arch +:+ "-index.json")
             ("/json/v1/" +:+ path +:+ "/" +:+ arch +:+ "-index.json")
             eq_refl).
  2:{ apply regex_span_clean. rewrite !has_line_feed_app, Hpath, Harch.
      done. }
  change (strip_prefix "/json/v1/"
            ("/json/v1/" +:+ path +:+ "/" +:+ arch +:+ "-index.json"))
    with (Some (path +:+ "/" +:+ arch +:+ "-index.json")).
  simpl.
  replace (path +:+ "/" +:+ arch +:+ "-index.json")
    with ((path +:+ "/" +:+ arch) +:+ "-index.json")
    by (by rewrite !string_app_assoc).
  rewrite strip_suffix_index_json, strip_suffix_app. simpl.
  by rewrite rsplit_slash_app.
Qed.

End RouteFacts.

(** C8, as stated, fails.  A doubled separator that is not at the start of
    the path matches no route, so no redirect is sent; a path that starts
    with three separators is redirected to one that still starts with two;
    and a path with a line feed inside matches no route either. *)
Lemma double_slash_inside_not_redirected :
  has_double_slash "/a//b" = true ∧
  (∀ api_routes, serve api_routes "/a//b" = NotFound) ∧
  has_double_slash "//x" = true ∧
  (∀ api_routes, serve api_routes "///x" = RedirectResponse "//x" 301) ∧
  (∀ api_routes,
     serve api_routes ("//a" +:+ String line_feed "b") = NotFound).
Proof. repeat split; intros; reflexivity. Qed.

(** ** The further theorems at concrete upstream states *)

Section MoreScenarios.

Import Scenario.

Local Abbreviation split_packages_at :=
  (packages_at base_manifest kmod_manifest).
Local Abbreviation base_url :=
  "https://downloads.openwrt.org/releases/24.10.0/targets/x86/64".
Local Abbreviation feeds_url :=
  "https://downloads.openwrt.org/releases/24.10.0/targets/x86/64/x86_64".

Lemma target_index_base_fetch_fails_scenario :
  result (json_v1_target_index upstream_url (λ _, true) split_packages_at
            kernel_version_at "releases/23.05.0/targets/none")
  = inl UpstreamFetchError.
Proof.
  apply (proj1 (target_index_base_fetch_fails upstream_url (λ _, true)
                  split_packages_at kernel_version_at
                  "releases/23.05.0/targets/none" UpstreamFetchError
                  ltac:(vm_compute; reflexivity))).
Defined.

Lemma target_index_no_kmod_fetch_scenario :
  calls (json_v1_target_index upstream_url (λ _, false) split_packages_at
           kernel_version_at target)
  = [ParsePackagesFile (base_url +:+ "/packages")].
Proof.
  apply (proj1 (target_index_no_kmod_fetch upstream_url (λ _, false)
                  split_packages_at kernel_version_at target base_manifest
                  ltac:(vm_compute; reflexivity))).
  reflexivity.
Defined.

Lemma target_index_merge_path_calls_scenario :
  calls (json_v1_target_index upstream_url (λ _, true) split_packages_at
           kernel_version_at target)
  = [ParsePackagesFile (base_url +:+ "/packages");
     ParseKernelVersion (base_url +:+ "/profiles.json");
     ParsePackagesFile (base_url +:+ "/kmods/" +:+ kmods_directory)].
Proof.
  apply (target_index_merge_path_calls upstream_url (λ _, true)
           split_packages_at kernel_version_at target base_manifest
           kmods_directory ltac:(vm_compute; reflexivity) eq_refl eq_refl).
  discriminate.
Defined.

Lemma target_index_kmod_failure_propagates_scenario :
  result (json_v1_target_index upstream_url (λ _, true) split_packages_at
            (λ _, inl UpstreamFetchError) target)
  = inl UpstreamFetchError.
Proof.
  apply (proj1 (target_index_kmod_failure_propagates upstream_url
                  (λ _, true) split_packages_at (λ _, inl UpstreamFetchError)
                  target base_manifest UpstreamFetchError
                  ltac:(vm_compute; reflexivity) eq_refl)).
  reflexivity.
Defined.

Local Abbreviation merged_manifest := Fixtures.merged_manifest.

Lemma merge_kmod_packages_idempotent_scenario :
  merge_kmod_packages merged_manifest kmod_manifest = inr merged_manifest.
Proof.
  apply (merge_kmod_packages_idempotent base_manifest).
  vm_compute. reflexivity.
Defined.

Lemma merge_kmod_packages_exceptions_scenario :
  merge_kmod_packages {[ "packages" := VStr "none" ]} kmod_manifest
  = inl AttributeError.
Proof.
  apply (proj1 (merge_kmod_packages_exceptions
                  {[ "packages" := VStr "none" ]} kmod_manifest ∅)
           (VStr "none")); [vm_compute; reflexivity|discriminate].
Defined.

Lemma merge_kmod_packages_keeps_scenario :
  dom merged_manifest = dom base_manifest.
Proof.
  apply (proj1 (merge_kmod_packages_keeps base_manifest kmod_manifest
                  merged_manifest ltac:(vm_compute; reflexivity))).
Defined.

Local Abbreviation three_feed_index luci :=
  (json_v1_arch_index upstream_url (feed_packages_at luci)
     (λ _, inr feeds) target arch).

Lemma three_feeds_fetched luci pre :
  (∀ g, g ∈ pre → g ∈ ["base"; "packages"]) →
  Forall (λ g, ∃ m, feed_packages_at luci (feeds_url +:+ "/" +:+ g) = inr m
                    ∧ packages_typed m) pre.
Proof.
  intros Hsub. apply Forall_forall. intros g Hg%Hsub.
  repeat (apply elem_of_cons in Hg as [->|Hg]);
    [eexists; split; [vm_compute; reflexivity|vm_compute; exact I]..|].
  by apply elem_of_nil in Hg.
Qed.

Lemma arch_index_calls_scenario :
  calls (three_feed_index (inr (foo "3")))
  = [ParseFeedsConf feeds_url;
     ParsePackagesFile (feeds_url +:+ "/base");
     ParsePackagesFile (feeds_url +:+ "/packages");
     ParsePackagesFile (feeds_url +:+ "/luci")].
Proof.
  apply (arch_index_calls upstream_url (feed_packages_at (inr (foo "3")))
           (λ _, inr feeds) target arch feeds eq_refl).
  unfold feeds.
  repeat (constructor;
            [eexists; split; [vm_compute; reflexivity|vm_compute; exact I]|]).
  constructor.
Defined.

Lemma arch_index_stops_at_first_failure_scenario :
  result (json_v1_arch_index upstream_url
            (feed_packages_at (inr (foo "3")))
            (λ _, inr ["base"; "nonexistent"; "luci"]) target arch)
  = inl UpstreamFetchError ∧
  calls (json_v1_arch_index upstream_url
           (feed_packages_at (inr (foo "3")))
           (λ _, inr ["base"; "nonexistent"; "luci"]) target arch)
  = [ParseFeedsConf feeds_url;
     ParsePackagesFile (feeds_url +:+ "/base");
     ParsePackagesFile (feeds_url +:+ "/nonexistent")].
Proof.
  apply (arch_index_stops_at_first_failure upstream_url
           (feed_packages_at (inr (foo "3")))
           (λ _, inr ["base"; "nonexistent"; "luci"]) target arch
           ["base"] "nonexistent" ["luci"] UpstreamFetchError eq_refl).
  - apply three_feeds_fetched.
    intros g ->%list_elem_of_singleton. by left.
  - vm_compute. reflexivity.
Defined.

Lemma arch_index_feeds_conf_fails_scenario :
  result (json_v1_arch_index upstream_url
            (feed_packages_at (inr (foo "3")))
            (λ _, inl UpstreamFetchError) target arch)
  = inl UpstreamFetchError.
Proof.
  apply (proj1 (arch_index_feeds_conf_fails upstream_url
                  (feed_packages_at (inr (foo "3")))
                  (λ _, inl UpstreamFetchError) target arch
                  UpstreamFetchError eq_refl)).
Defined.


Lemma arch_index_bad_packages_field_scenario :
  result (three_feed_index (inr Fixtures.numbered)) = inl TypeError.
Proof.
  apply (proj1 (arch_index_bad_packages_field upstream_url
                  (feed_packages_at (inr Fixtures.numbered))
                  (λ _, inr feeds) target arch ["base"; "packages"] "luci" []
                  Fixtures.numbered eq_refl
                  (three_feeds_fetched _ _ (λ _ H, H))
                  ltac:(vm_compute; reflexivity)) 7%Z).
  vm_compute. reflexivity.
Defined.

Lemma disjoint_contributions (f g name : string) :
  f ∈ ["base"; "luci"] → g ∈ ["base"; "luci"] → f ≠ g →
  is_Some (contribution (Fixtures.doc f) !! name) →
  contribution (Fixtures.doc g) !! name = None.
Proof.
  assert (Hbase : contribution (Fixtures.doc "base")
                  = {[ "a" := VStr "1" ]}) by (vm_compute; reflexivity).
  assert (Hluci : contribution (Fixtures.doc "luci")
                  = {[ "b" := VStr "2" ]}) by (vm_compute; reflexivity).
  intros Hf Hg Hne.
  repeat (apply elem_of_cons in Hf as [->|Hf]);
    [..|by apply elem_of_nil in Hf];
    (repeat (apply elem_of_cons in Hg as [->|Hg]);
       [..|by apply elem_of_nil in Hg]);
    try done; rewrite ?Hbase, ?Hluci;
    intros [v [<- _]%lookup_singleton_Some]; by apply lookup_singleton_ne.
Qed.

Lemma arch_index_disjoint_feeds_any_order_scenario :
  result (json_v1_arch_index upstream_url Fixtures.packages_at
            (λ _, inr ["base"; "luci"]) target arch)
  = result (json_v1_arch_index upstream_url Fixtures.packages_at
              (λ _, inr ["luci"; "base"]) target arch).
Proof.
  apply (arch_index_disjoint_feeds_any_order upstream_url
           Fixtures.packages_at target arch
           (λ _, inr ["base"; "luci"]) (λ _, inr ["luci"; "base"])
           ["base"; "luci"] ["luci"; "base"] Fixtures.doc
           eq_refl eq_refl).
  - apply perm_swap.
  - intros f Hf.
    repeat (apply elem_of_cons in Hf as [->|Hf]);
      [split; [vm_compute; reflexivity|vm_compute; exact I]..|].
    by apply elem_of_nil in Hf.
  - intros f g name. apply disjoint_contributions.
Defined.

Lemma index_branches_one_entry_per_branch_scenario :
  length (index_branches smembers elements) = size (smembers "branches").
Proof.
  apply (proj2 (proj2 (index_branches_one_entry_per_branch smembers
                         elements (λ s, reflexivity _)))).
Defined.

Lemma index_branches_entry_scenario :
  ∃ info,
    ("SNAPSHOT", info) ∈ index_branches smembers elements ∧
    (∀ v, v ∈ versions info ↔ v ∈ smembers "versions:SNAPSHOT") ∧
    (smembers "versions:SNAPSHOT" = ∅ → versions info = []).
Proof.
  apply (index_branches_entry smembers elements "SNAPSHOT").
  - intros s. reflexivity.
  - apply elem_of_elements. vm_compute. repeat constructor.
Defined.

Lemma double_slash_redirect_scenario :
  serve (λ _, false) "//api/v1/overview"
  = RedirectResponse "/api/v1/overview" 301.
Proof. apply (double_slash_redirect (λ _, false) "api/v1/overview" eq_refl). Defined.

Lemma dispatch_target_index_scenario :
  dispatch (λ _, false)
    "/json/v1/releases/24.10.0/targets/x86/64/index.json"
  = Some (JsonV1TargetIndex "releases/24.10.0/targets/x86/64").
Proof.
  apply (dispatch_target_index (λ _, false)
           "releases/24.10.0/targets/x86/64" eq_refl).
Defined.

Lemma dispatch_arch_index_scenario :
  dispatch (λ _, false)
    "/json/v1/releases/24.10.0/targets/x86/64/x86_64-index.json"
  = Some (JsonV1ArchIndex "releases/24.10.0/targets/x86/64" "x86_64").
Proof.
  apply (dispatch_arch_index (λ _, false)
           "releases/24.10.0/targets/x86/64" "x86_64" eq_refl eq_refl).
  by apply no_separator.
Defined.

End MoreScenarios.
